(** * PassionDSA: the explanation resolver and the stack / queue demo

    A shallow embedding of [src/App.tsx]: the closed sets of interests and
    concepts, the function [generateExplanation], the derived label list
    [demoItems], and the click handlers of the [App] component seen as a
    state machine over the four [useState] cells. *)

From Stdlib Require Import ZArith Ascii.
From stdpp Require Import base list strings pretty.

Open Scope string_scope.
Open Scope list_scope.

(** ** JavaScript helpers *)

Module JS.

(** [Array.prototype.slice(start, end)]: a negative bound counts from the
    end of the array, both bounds are clamped to [0 .. length], and an
    absent [end] means the length. *)
Definition clamp (len rel : Z) : Z :=
  if (rel <? 0)%Z then Z.max (len + rel) 0 else Z.min rel len.

Definition slice {A} (start : Z) (end_ : option Z) (a : list A) : list A :=
  let len := Z.of_nat (length a) in
  let k := clamp len start in
  let final := match end_ with Some e => clamp len e | None => len end in
  take (Z.to_nat (Z.max (final - k) 0)) (drop (Z.to_nat k) a).

(** [a[i]] on an array: [None] stands for [undefined]. *)
Definition index {A} (a : list A) (i : nat) : option A := a !! i.

(** A template literal that spans several source lines holds one line feed
    between two consecutive lines. *)
Definition LF : string := String "010"%char EmptyString.
Definition DQ : string := String "034"%char EmptyString.

Fixpoint lines (ls : list string) : string :=
  match ls with
  | [] => ""
  | [l] => l
  | l :: rest => l +:+ LF +:+ lines rest
  end.

End JS.

(** ** Domain data *)

Inductive Interest := Dance | Poetry | Cooking | Sports | Gaming | Music.
Inductive Concept := Stack | Queue | HashMap | BinarySearch | Recursion | Graph.

Definition INTERESTS : list Interest := [Dance; Poetry; Cooking; Sports; Gaming; Music].
Definition CONCEPTS : list Concept := [Stack; Queue; HashMap; BinarySearch; Recursion; Graph].

#[global] Instance Interest_eq_dec : EqDecision Interest.
Proof. solve_decision. Defined.
#[global] Instance Concept_eq_dec : EqDecision Concept.
Proof. solve_decision. Defined.

(** The text of each label, as the arrays [INTERESTS] and [CONCEPTS] spell it. *)
Definition interest_label (i : Interest) : string :=
  match i with
  | Dance => "Dance" | Poetry => "Poetry" | Cooking => "Cooking"
  | Sports => "Sports" | Gaming => "Gaming" | Music => "Music"
  end.

Definition concept_label (c : Concept) : string :=
  match c with
  | Stack => "Stack" | Queue => "Queue" | HashMap => "Hash Map"
  | BinarySearch => "Binary Search" | Recursion => "Recursion" | Graph => "Graph"
  end.

Record Flavor := { item : string; place : string; group : string }.

Record Explanation := { analogy : string; steps : list string; code : string }.

(** ** The explanation resolver *)

(** The object literal indexed by [interest] at the head of
    [generateExplanation]. *)
Definition flavor (i : Interest) : Flavor :=
  match i with
  | Dance => {| item := "move"; place := "routine"; group := "dancers" |}
  | Poetry => {| item := "line"; place := "stanza"; group := "poems" |}
  | Cooking => {| item := "step"; place := "recipe"; group := "ingredients" |}
  | Sports => {| item := "play"; place := "playbook"; group := "players" |}
  | Gaming => {| item := "action"; place := "combo"; group := "NPCs" |}
  | Music => {| item := "bar"; place := "setlist"; group := "musicians" |}
  end.

Definition generateExplanation (interest : Interest) (concept : Concept) : Explanation :=
  let flavor := flavor interest in
  match concept with
  | Stack =>
      {| analogy :=
           ("A Stack is like building a " +:+ place flavor +:+ ": you add each "
              +:+ item flavor +:+ " on top. ")
           +:+ ("When you undo, the last " +:+ item flavor
              +:+ " you added comes off first (LIFO).");
         steps :=
           [ "Push: add a " +:+ item flavor +:+ " to the top of the " +:+ place flavor +:+ ".";
             "Top always points to the most recent item.";
             "Pop: remove the top " +:+ item flavor +:+ " first (reverse order).";
             "Great for undo, back navigation, parsing." ];
         code := JS.lines
           [ "// Stack in TypeScript";
             "const stack: string[] = [];";
             "stack.push(" +:+ JS.DQ +:+ item flavor +:+ " A" +:+ JS.DQ +:+ ");";
             "stack.push(" +:+ JS.DQ +:+ item flavor +:+ " B" +:+ JS.DQ +:+ ");";
             "console.log(stack.pop()); // " +:+ JS.DQ +:+ item flavor +:+ " B" +:+ JS.DQ;
             "console.log(stack.pop()); // " +:+ JS.DQ +:+ item flavor +:+ " A" +:+ JS.DQ ] |}
  | Queue =>
      {| analogy :=
           "A Queue is like " +:+ group flavor +:+ " lining up: first in is first served (FIFO).";
         steps :=
           [ "Enqueue: add to the back.";
             "Dequeue: remove from the front.";
             "Fair ordering, used in scheduling and BFS." ];
         code := JS.lines
           [ "// Queue in TypeScript";
             "const queue: string[] = [];";
             "queue.push(" +:+ JS.DQ +:+ "first" +:+ JS.DQ +:+ ");";
             "queue.push(" +:+ JS.DQ +:+ "second" +:+ JS.DQ +:+ ");";
             "console.log(queue.shift()); // " +:+ JS.DQ +:+ "first" +:+ JS.DQ ] |}
  | HashMap =>
      {| analogy :=
           "A Hash Map is like labeled bins for your " +:+ place flavor
             +:+ ": find a bin by label in O(1) average time.";
         steps :=
           [ "Hash function computes a bucket index from a key.";
             "Handle collisions (chaining or open addressing).";
             "O(1) average get/set; O(n) worst-case." ];
         code := JS.lines
           [ "// Map in TypeScript";
             "const m = new Map<string, number>();";
             "m.set(" +:+ JS.DQ +:+ "tempo" +:+ JS.DQ +:+ ", 120);";
             "console.log(m.get(" +:+ JS.DQ +:+ "tempo" +:+ JS.DQ +:+ ")); // 120" ] |}
  | BinarySearch =>
      {| analogy :=
           "Binary Search is like guessing a BPM by halving ranges: check middle, then discard half.";
         steps :=
           [ "Requires a sorted array.";
             "Pick middle, compare target.";
             "Keep the half that can contain the target." ];
         code := JS.lines
           [ "function bsearch(a: number[], x: number) {";
             "  let l = 0, r = a.length - 1;";
             "  while (l <= r) {";
             "    const mid = (l + r) >> 1;";
             "    if (a[mid] === x) return mid;";
             "    if (a[mid] < x) l = mid + 1; else r = mid - 1;";
             "  }";
             "  return -1;";
             "}" ] |}
  | Recursion =>
      {| analogy :=
           "Recursion is like repeating a motif in a " +:+ place flavor
             +:+ ": each call tackles a smaller version until a base case.";
         steps :=
           [ "Define base case.";
             "Make progress toward base.";
             "Trust the function to solve smaller subproblems." ];
         code := JS.lines
           [ "function factorial(n: number): number {";
             "  if (n <= 1) return 1;        // base case";
             "  return n * factorial(n - 1); // recursive step";
             "}" ] |}
  | Graph =>
      {| analogy :=
           "A Graph connects " +:+ group flavor
             +:+ " with relationships (edges). Explore paths, cycles, and communities.";
         steps :=
           [ "Nodes (vertices) + edges (directed/undirected).";
             "DFS explores depth-first; BFS explores breadth-first.";
             "Used in maps, social networks, dependency graphs." ];
         code := JS.lines
           [ "const g: Record<string, string[]> = {";
             "  A: [" +:+ JS.DQ +:+ "B" +:+ JS.DQ +:+ "," +:+ JS.DQ +:+ "C" +:+ JS.DQ
               +:+ "], B:[" +:+ JS.DQ +:+ "D" +:+ JS.DQ +:+ "], C:[" +:+ JS.DQ +:+ "D"
               +:+ JS.DQ +:+ "], D:[]";
             "};";
             "// BFS from A";
             "function bfs(start: string) {";
             "  const q = [start], seen = new Set([start]);";
             "  while (q.length) {";
             "    const v = q.shift()!;";
             "    for (const n of g[v]) if (!seen.has(n)) { seen.add(n); q.push(n); }";
             "  }";
             "  return seen;";
             "}" ] |}
  end.

(** ** The [App] component *)

(** The four [useState] cells of [App]. *)
Record State := {
  interest : option Interest;
  concept : option Concept;
  stack : list string;
  queue : list string
}.

(** [useState(null)], [useState(null)], [useState([])], [useState([])]. *)
Definition init : State :=
  {| interest := None; concept := None; stack := []; queue := [] |}.

(** [map[interest]], which the source binds to [base]. *)
Definition base (interest : Interest) : string :=
  match interest with
  | Dance => "Move"
  | Poetry => "Line"
  | Cooking => "Step"
  | Sports => "Play"
  | Gaming => "Action"
  | Music => "Bar"
  end.

Definition demoItems (interest : option Interest) : list string :=
  match interest with
  | None => ["Item A"; "Item B"; "Item C"; "Item D"]
  | Some i =>
      let base := base i in
      [base +:+ " A"; base +:+ " B"; base +:+ " C"; base +:+ " D"]
  end.

(** [exp]: the memoised explanation, [null] until both selections are made. *)
Definition exp (s : State) : option Explanation :=
  match interest s, concept s with
  | Some i, Some c => Some (generateExplanation i c)
  | _, _ => None
  end.

Definition canVisualize (s : State) : bool :=
  bool_decide (concept s = Some Stack) || bool_decide (concept s = Some Queue).

(** What [a[i]] yields when [i] is out of range. The element type of the two
    sequences is [string]; [demoItems_index_defined] below shows that the
    handlers never read out of range, so this value never enters a sequence. *)
Definition undefined : string := "undefined".

(** [[...s, demoItems[s.length % demoItems.length]]]: the updater that the
    Push and Enqueue buttons hand to [setStack] and [setQueue]. *)
Definition append_next (demoItems s : list string) : list string :=
  s ++ [default undefined (JS.index demoItems (length s mod length demoItems))].

(** [s.slice(0, -1)] and [q.slice(1)]. *)
Definition remove_end (s : list string) : list string := JS.slice 0 (Some (-1)%Z) s.
Definition remove_front (q : list string) : list string := JS.slice 1 None q.

(** The controls of the page. *)
Inductive Event :=
| ClickInterest (i : Interest)
| ClickConcept (c : Concept)
| ClickPush
| ClickPop
| ClickEnqueue
| ClickDequeue
| ClickReset.

#[global] Instance Event_eq_dec : EqDecision Event.
Proof. solve_decision. Defined.

(** The [onClick] handler of each control. A functional updater
    [setStack(s => ...)] is applied to the current cell. *)
Definition handler (e : Event) (s : State) : State :=
  match e with
  | ClickInterest i =>
      {| interest := Some i; concept := None; stack := []; queue := [] |}
  | ClickConcept c =>
      {| interest := interest s; concept := Some c; stack := []; queue := [] |}
  | ClickPush =>
      {| interest := interest s; concept := concept s;
         stack := append_next (demoItems (interest s)) (stack s);
         queue := queue s |}
  | ClickPop =>
      {| interest := interest s; concept := concept s;
         stack := remove_end (stack s);
         queue := queue s |}
  | ClickEnqueue =>
      {| interest := interest s; concept := concept s;
         stack := stack s;
         queue := append_next (demoItems (interest s)) (queue s) |}
  | ClickDequeue =>
      {| interest := interest s; concept := concept s;
         stack := stack s;
         queue := remove_front (queue s) |}
  | ClickReset =>
      {| interest := interest s; concept := concept s; stack := []; queue := [] |}
  end.

(** The demo panel is rendered under [interest && concept] and, inside it,
    under [canVisualize]. *)
Definition panel (s : State) : bool :=
  bool_decide (is_Some (interest s)) && bool_decide (is_Some (concept s)) && canVisualize s.

(** Whether a control is on the page and not [disabled]. The interest
    buttons always are; a concept button is disabled until an interest is
    chosen; Push and Pop are rendered when the concept is Stack, Enqueue and
    Dequeue otherwise; Pop and Dequeue are disabled on an empty sequence. *)
Definition offered (s : State) (e : Event) : bool :=
  match e with
  | ClickInterest _ => true
  | ClickConcept _ => bool_decide (is_Some (interest s))
  | ClickPush => panel s && bool_decide (concept s = Some Stack)
  | ClickPop =>
      panel s && bool_decide (concept s = Some Stack)
        && negb (bool_decide (length (stack s) = 0))
  | ClickEnqueue => panel s && negb (bool_decide (concept s = Some Stack))
  | ClickDequeue =>
      panel s && negb (bool_decide (concept s = Some Stack))
        && negb (bool_decide (length (queue s) = 0))
  | ClickReset => panel s
  end.

(** One user action: a click on a control that is offered runs its handler. *)
Definition step (s : State) (e : Event) : option State :=
  if offered s e then Some (handler e s) else None.

(** A session: the clicks in the order they are dispatched. *)
Fixpoint run (s : State) (tr : list Event) : option State :=
  match tr with
  | [] => Some s
  | e :: tr' =>
      match step s e with
      | Some s' => run s' tr'
      | None => None
      end
  end.

Inductive reachable : State -> Prop :=
| reach_init : reachable init
| reach_step s e s' : reachable s -> step s e = Some s' -> reachable s'.

(** *** Bookkeeping on sessions

    These counters are not in the source: they count, along a session, the
    clicks of one kind since the two sequences were last emptied. *)

Definition clears (e : Event) : bool :=
  match e with
  | ClickInterest _ | ClickConcept _ | ClickReset => true
  | _ => false
  end.

Fixpoint count_from (target : Event) (n : nat) (tr : list Event) : nat :=
  match tr with
  | [] => n
  | e :: tr' =>
      count_from target
        (if clears e then 0 else if bool_decide (e = target) then S n else n) tr'
  end.

Definition since_reset (target : Event) (tr : list Event) : nat :=
  count_from target 0 tr.

(** The reading of the label rule by an append counter: after the session
    [tr], the next Push appends item [k mod 4] of the template, [k] being the
    number of Push clicks since the last reset; likewise for Enqueue. *)
Definition append_uses_counter (tr : list Event) : Prop :=
  forall s, run init tr = Some s ->
    (offered s ClickPush = true ->
     stack (handler ClickPush s)
       = stack s ++ [default undefined
                       (demoItems (interest s) !! (since_reset ClickPush tr mod 4))])
    /\ (offered s ClickEnqueue = true ->
     queue (handler ClickEnqueue s)
       = queue s ++ [default undefined
                       (demoItems (interest s) !! (since_reset ClickEnqueue tr mod 4))]).

(** *** Sample sessions and states *)

(** Music, Stack, two Push clicks and one Pop, and the state this leads to. *)
Definition session_push_push_pop : list Event :=
  [ClickInterest Music; ClickConcept Stack; ClickPush; ClickPush; ClickPop].

Definition state_one_bar : State :=
  {| interest := Some Music; concept := Some Stack; stack := ["Bar A"]; queue := [] |}.

(** Poetry, Stack and two Push clicks, and the state this leads to. *)
Definition session_two_lines : list Event :=
  [ClickInterest Poetry; ClickConcept Stack; ClickPush; ClickPush].

Definition state_two_lines : State :=
  {| interest := Some Poetry; concept := Some Stack;
     stack := ["Line A"; "Line B"]; queue := [] |}.

(** A state with both sequences filled, and one with both empty. *)
Definition state_both_filled : State :=
  {| interest := Some Sports; concept := Some Queue;
     stack := ["Play A"; "Play B"; "Play C"]; queue := ["Play A"; "Play B"] |}.

Definition state_both_empty : State :=
  {| interest := Some Gaming; concept := Some Stack; stack := []; queue := [] |}.

(** Containment of a piece of text. *)
Definition contains (text piece : string) : Prop :=
  exists before after, text = before +:+ piece +:+ after.

(** A text mentions an interest when it contains one of the three nouns of
    its flavor. *)
Definition mentions (text : string) (j : Interest) : Prop :=
  contains text (item (flavor j))
  \/ contains text (place (flavor j))
  \/ contains text (group (flavor j)).

(** A decision procedure for containment (not in the source): [piece] starts
    [text] or occurs further on. *)
Fixpoint occurs (piece text : string) : bool :=
  String.prefix piece text
  || match text with
     | EmptyString => false
     | String _ rest => occurs piece rest
     end.

(** ** The bars

    [BarsVisualizer] and the place where [App] renders it. Of the markup
    only what depends on the data is kept: the caption in the corner, the
    size readout, and for each bar its React key and its text. *)

(** [label + i]: a number appended to a string is written in decimal. *)
Definition key (label : string) (i : nat) : string := label +:+ pretty i.

(** The [type] prop: ["Stack" | "Queue"]. *)
Inductive BarsType := BarsStack | BarsQueue.

Record Bars := {
  caption : string;
  size : nat;
  bars : list (string * string)
}.

Definition BarsVisualizer (items : list string) (type : BarsType) : Bars :=
  {| caption := match type with BarsStack => "Top →" | BarsQueue => "Front →" end;
     size := length items;
     bars := imap (fun i label => (key label i, label)) items |}.

(** The visualizer that [App] shows: none unless the panel is rendered, the
    stack when the concept is Stack, the queue otherwise. *)
Definition visualizer (s : State) : option Bars :=
  if panel s then
    Some (if bool_decide (concept s = Some Stack)
          then BarsVisualizer (stack s) BarsStack
          else BarsVisualizer (queue s) BarsQueue)
  else None.

(** *** What every session keeps

    A concept is never selected without an interest; a sequence holds
    something only while its own concept is selected; every label comes from
    the template of the selected interest; the stack lists the template in
    cyclic order. *)
Definition consistent (s : State) : Prop :=
  (is_Some (concept s) -> is_Some (interest s))
  /\ (stack s <> [] -> concept s = Some Stack)
  /\ (queue s <> [] -> concept s = Some Queue)
  /\ Forall (fun label => label ∈ demoItems (interest s)) (stack s ++ queue s)
  /\ (forall k label, stack s !! k = Some label ->
        demoItems (interest s) !! (k mod 4) = Some label).

(** Sample states for the properties below. *)
Definition state_graph : State :=
  {| interest := Some Cooking; concept := Some Graph; stack := []; queue := [] |}.

Definition session_graph : list Event := [ClickInterest Cooking; ClickConcept Graph].

Definition session_queue_twice : list Event :=
  [ClickInterest Sports; ClickConcept Queue; ClickEnqueue; ClickEnqueue;
   ClickDequeue; ClickEnqueue].

Definition state_queue_twice : State :=
  {| interest := Some Sports; concept := Some Queue;
     stack := []; queue := ["Play B"; "Play B"] |}.

(** * Properties *)

(** ** Arrays *)

Section Slice.
Context {A : Type}.
Implicit Types (a : list A) (x : A).

Lemma slice_0_m1_snoc a x : JS.slice 0 (Some (-1)%Z) (a ++ [x]) = a.
Proof.
  unfold JS.slice, JS.clamp. rewrite length_app. simpl.
  replace (Z.to_nat (Z.min 0 _)) with 0 by lia.
  rewrite drop_0.
  replace (Z.to_nat _) with (length a) by lia.
  now rewrite take_app_length.
Qed.

Lemma slice_0_m1_nil : JS.slice 0 (Some (-1)%Z) (@nil A) = [].
Proof. reflexivity. Qed.

Lemma slice_1_cons x a : JS.slice 1 None (x :: a) = a.
Proof.
  unfold JS.slice, JS.clamp. change (1 <? 0)%Z with false. cbv iota.
  simpl length.
  replace (Z.to_nat (Z.min 1 _)) with 1 by lia.
  simpl drop.
  replace (Z.to_nat _) with (length a) by lia.
  apply firstn_all.
Qed.

Lemma slice_1_nil : JS.slice 1 None (@nil A) = [].
Proof. reflexivity. Qed.

Lemma nonempty_snoc a : 0 < length a -> exists a' x, a = a' ++ [x].
Proof.
  destruct a as [|y a] using rev_ind; simpl; [lia|]. intros _. eauto.
Qed.
End Slice.

(** ** The label template *)

Lemma demoItems_length i : length (demoItems i) = 4.
Proof. now destruct i. Qed.

(** The index [s.length % demoItems.length] is always in range. *)
Lemma demoItems_index_defined i n :
  is_Some (JS.index (demoItems i) (n mod length (demoItems i))).
Proof.
  apply lookup_lt_is_Some. rewrite demoItems_length.
  apply Nat.mod_upper_bound. lia.
Qed.

Lemma append_next_demoItems i s :
  append_next (demoItems i) s
    = s ++ [default undefined (demoItems i !! (length s mod 4))].
Proof. unfold append_next, JS.index. now rewrite demoItems_length. Qed.

Lemma length_append_next items s : length (append_next items s) = length s + 1.
Proof. unfold append_next. now rewrite length_app. Qed.

Lemma length_remove_end s : length (remove_end s) = length s - 1.
Proof.
  unfold remove_end. destruct s as [|x s] using rev_ind; [reflexivity|].
  rewrite slice_0_m1_snoc, length_app. simpl. lia.
Qed.

Lemma length_remove_front q : length (remove_front q) = length q - 1.
Proof.
  unfold remove_front. destruct q as [|x q]; [reflexivity|].
  rewrite slice_1_cons. simpl. lia.
Qed.

(** ** Sessions *)

Lemma step_Some s e s' : step s e = Some s' <-> offered s e = true /\ s' = handler e s.
Proof.
  unfold step. destruct (offered s e); split.
  - intros [= <-]. auto.
  - intros [_ ->]. reflexivity.
  - discriminate.
  - intros [[=] _].
Qed.

Lemma run_snoc s tr e :
  run s (tr ++ [e]) = s' ← run s tr; step s' e.
Proof.
  revert s. induction tr as [|e' tr IH]; intros s; simpl.
  - now destruct (step s e).
  - destruct (step s e'); [apply IH | reflexivity].
Qed.

Lemma reachable_run s : reachable s <-> exists tr, run init tr = Some s.
Proof.
  split.
  - induction 1 as [|s e s' _ [tr Htr] Hstep].
    + now exists [].
    + exists (tr ++ [e]). rewrite run_snoc, Htr. exact Hstep.
  - intros [tr Htr]. revert s Htr.
    induction tr as [|e tr IH] using rev_ind; intros s.
    + intros [= <-]. constructor.
    + rewrite run_snoc. destruct (run init tr) as [s0|] eqn:E; [|discriminate].
      simpl. intros Hstep. eapply reach_step; [apply IH; reflexivity | exact Hstep].
Qed.

(** One click at a time: a clearing click zeroes the length and both
    counters, an append adds one to the length and to its counter, and a
    removal is offered only on a non-empty sequence. *)
Ltac account_by_click length_remove :=
  let e := fresh "e" in let tr := fresh "tr" in let IH := fresh "IH" in
  let Hoff := fresh "Hoff" in let Hne := fresh "Hne" in
  intros tr; induction tr as [|e tr IH]; intros s0 p r s Hlen; simpl;
  [ now intros [= <-]
  | destruct (step s0 e) as [?|] eqn:Hstep; [|discriminate];
    apply step_Some in Hstep as [Hoff ->]; apply IH;
    destruct e; simpl in *; try lia;
    [ rewrite length_append_next; lia
    | rewrite length_remove;
      apply andb_true_iff in Hoff as [_ Hne];
      apply negb_true_iff, bool_decide_eq_false in Hne; lia ] ].

(** Along a session the length of each sequence is the number of appends
    less the number of removals, both counted since the sequence was last
    emptied. The statement is generalised to a session that starts anywhere. *)
Lemma stack_length_accounting tr : forall s0 p r s,
  length (stack s0) + r = p ->
  run s0 tr = Some s ->
  length (stack s) + count_from ClickPop r tr = count_from ClickPush p tr.
Proof. revert tr. account_by_click length_remove_end. Qed.

Lemma queue_length_accounting tr : forall s0 p r s,
  length (queue s0) + r = p ->
  run s0 tr = Some s ->
  length (queue s) + count_from ClickDequeue r tr = count_from ClickEnqueue p tr.
Proof. revert tr. account_by_click length_remove_front. Qed.

(** ** Label selection *)

(** C1, as stated, fails. After Music and Stack are selected, two Push
    clicks and one Pop leave the stack at ["Bar A"]. The next Push is the
    append number 2 since the last reset, so an append counter would select
    item [2 mod 4], "Bar C"; the handler reads the length, 1, and appends
    "Bar B". *)
Lemma append_counter_fails_after_pop :
  ~ append_uses_counter session_push_push_pop.
Proof.
  intros H. destruct (H _ eq_refl) as [Hpush _].
  specialize (Hpush eq_refl). vm_compute in Hpush. discriminate Hpush.
Qed.

(** C1, amended: label selection reads the current length of the sequence.
    After any session, the length of the stack is the number of Push clicks
    less the number of Pop clicks since the sequences were last emptied, a
    Push appends the item of the template at that length modulo 4, and that
    item exists; likewise for the queue with Enqueue and Dequeue. With no
    removal since the last reset this is item [k mod 4] for the k-th append. *)
Theorem append_selects_by_length (tr : list Event) (s : State) :
  run init tr = Some s ->
  let n := since_reset ClickPush tr - since_reset ClickPop tr in
  let m := since_reset ClickEnqueue tr - since_reset ClickDequeue tr in
  (length (stack s) = n
   /\ exists label, demoItems (interest s) !! (n mod 4) = Some label
        /\ stack (handler ClickPush s) = stack s ++ [label])
  /\ (length (queue s) = m
   /\ exists label, demoItems (interest s) !! (m mod 4) = Some label
        /\ queue (handler ClickEnqueue s) = queue s ++ [label]).
Proof.
  intros Hrun n m.
  assert (Hn : length (stack s) = n).
  { pose proof (stack_length_accounting tr init 0 0 s eq_refl Hrun).
    unfold n, since_reset. lia. }
  assert (Hm : length (queue s) = m).
  { pose proof (queue_length_accounting tr init 0 0 s eq_refl Hrun).
    unfold m, since_reset. lia. }
  split; (split; [assumption|]).
  - destruct (demoItems_index_defined (interest s) n) as [label Hl].
    unfold JS.index in Hl. rewrite demoItems_length in Hl.
    exists label. split; [exact Hl|].
    simpl. now rewrite append_next_demoItems, Hn, Hl.
  - destruct (demoItems_index_defined (interest s) m) as [label Hl].
    unfold JS.index in Hl. rewrite demoItems_length in Hl.
    exists label. split; [exact Hl|].
    simpl. now rewrite append_next_demoItems, Hm, Hl.
Qed.

Lemma append_selects_by_length_witness :
  run init session_push_push_pop = Some state_one_bar
  /\ length (stack state_one_bar) = 1
  /\ exists label, demoItems (interest state_one_bar) !! (1 mod 4) = Some label
       /\ stack (handler ClickPush state_one_bar) = stack state_one_bar ++ [label].
Proof.
  split; [reflexivity|].
  exact (proj1 (append_selects_by_length
                  session_push_push_pop state_one_bar eq_refl)).
Defined.

(** ** The resolver *)

(** C2: [generateExplanation] is defined on all 36 pairs, and on each it
    returns a non-empty analogy, at least two steps and a non-empty code
    snippet. *)
Theorem generateExplanation_total (i : Interest) (c : Concept) :
  0 < String.length (analogy (generateExplanation i c))
  /\ 2 <= length (steps (generateExplanation i c))
  /\ 0 < String.length (code (generateExplanation i c)).
Proof. destruct i, c; vm_compute; repeat split; lia. Qed.

(** The two arrays list every constructor: the sets are closed, six each. *)
Lemma INTERESTS_closed i : i ∈ INTERESTS /\ length INTERESTS = 6.
Proof. split; [|reflexivity]. destruct i; unfold INTERESTS; repeat constructor. Qed.

Lemma CONCEPTS_closed c : c ∈ CONCEPTS /\ length CONCEPTS = 6.
Proof. split; [|reflexivity]. destruct c; unfold CONCEPTS; repeat constructor. Qed.

(** ** The two sequences *)

(** C3: Push and Enqueue add one element at the end of their sequence, so
    its length grows by one, and a Pop right after a Push restores the
    stack. On a non-empty stack Pop removes the last
    element and nothing else; on a non-empty queue Dequeue removes the first
    element and nothing else; the length then drops by one. *)
Theorem append_and_remove (s : State) :
  ((exists x, stack (handler ClickPush s) = stack s ++ [x])
   /\ length (stack (handler ClickPush s)) = length (stack s) + 1
   /\ stack (handler ClickPop (handler ClickPush s)) = stack s)
  /\ ((exists x, queue (handler ClickEnqueue s) = queue s ++ [x])
   /\ length (queue (handler ClickEnqueue s)) = length (queue s) + 1)
  /\ (0 < length (stack s) ->
      exists rest x, stack s = rest ++ [x]
        /\ stack (handler ClickPop s) = rest
        /\ length (stack (handler ClickPop s)) + 1 = length (stack s))
  /\ (0 < length (queue s) ->
      exists x rest, queue s = x :: rest
        /\ queue (handler ClickDequeue s) = rest
        /\ length (queue (handler ClickDequeue s)) + 1 = length (queue s)).
Proof.
  destruct s as [i c st qu]; simpl.
  split; [|split; [|split]].
  - split; [unfold append_next; eauto|].
    split; [apply length_append_next|].
    unfold remove_end, append_next. apply slice_0_m1_snoc.
  - split; [unfold append_next; eauto | apply length_append_next].
  - intros Hne. destruct (nonempty_snoc st Hne) as (rest & x & ->).
    exists rest, x. unfold remove_end. rewrite slice_0_m1_snoc, length_app.
    auto.
  - intros Hne. destruct qu as [|x rest]; simpl in Hne; [lia|].
    exists x, rest. unfold remove_front. rewrite slice_1_cons. simpl.
    repeat split. lia.
Qed.

Lemma append_and_remove_witness :
  (0 < length (stack state_both_filled) /\ 0 < length (queue state_both_filled))
  /\ (exists rest x, stack state_both_filled = rest ++ [x]
        /\ stack (handler ClickPop state_both_filled) = rest
        /\ length (stack (handler ClickPop state_both_filled)) + 1
             = length (stack state_both_filled))
  /\ (exists x rest, queue state_both_filled = x :: rest
        /\ queue (handler ClickDequeue state_both_filled) = rest
        /\ length (queue (handler ClickDequeue state_both_filled)) + 1
             = length (queue state_both_filled)).
Proof.
  assert (Hs : 0 < length (stack state_both_filled)) by (simpl; lia).
  assert (Hq : 0 < length (queue state_both_filled)) by (simpl; lia).
  split; [split; assumption|].
  destruct (append_and_remove state_both_filled) as (_ & _ & Hpop & Hdeq).
  split; [exact (Hpop Hs) | exact (Hdeq Hq)].
Defined.

(** C4: on an empty stack the Pop handler returns the state it was given,
    and on an empty queue so does the Dequeue handler. Both handlers are
    total functions, so nothing is raised; the page moreover does not offer
    the control in that state. *)
Theorem remove_on_empty_is_noop (s : State) :
  (stack s = [] ->
     handler ClickPop s = s /\ length (stack (handler ClickPop s)) = 0
     /\ offered s ClickPop = false)
  /\ (queue s = [] ->
     handler ClickDequeue s = s /\ length (queue (handler ClickDequeue s)) = 0
     /\ offered s ClickDequeue = false).
Proof.
  destruct s as [i c st qu]; simpl. split; intros ->; simpl.
  - unfold remove_end. rewrite slice_0_m1_nil. repeat split.
    now rewrite andb_false_r.
  - unfold remove_front. rewrite slice_1_nil. repeat split.
    now rewrite andb_false_r.
Qed.

Lemma remove_on_empty_is_noop_witness :
  (stack state_both_empty = [] /\ queue state_both_empty = [])
  /\ handler ClickPop state_both_empty = state_both_empty
  /\ handler ClickDequeue state_both_empty = state_both_empty.
Proof.
  split; [split; reflexivity|].
  destruct (remove_on_empty_is_noop state_both_empty) as [Hpop Hdeq].
  split; [exact (proj1 (Hpop eq_refl)) | exact (proj1 (Hdeq eq_refl))].
Defined.

(** C5: a click on an interest button is always accepted; it selects that
    interest, sets the concept back to none and empties both sequences. Once
    an interest is set, a click on a concept button is accepted; it selects
    that concept, keeps the interest and empties both sequences. This holds
    in every state, hence in every reachable one. *)
Theorem selection_clears (s : State) :
  reachable s ->
  (forall i, exists s', step s (ClickInterest i) = Some s'
      /\ interest s' = Some i /\ concept s' = None
      /\ stack s' = [] /\ queue s' = [])
  /\ (forall c, is_Some (interest s) ->
      exists s', step s (ClickConcept c) = Some s'
      /\ interest s' = interest s /\ concept s' = Some c
      /\ stack s' = [] /\ queue s' = []).
Proof.
  intros _. split.
  - intros i. eexists. split; [reflexivity|]. simpl. auto.
  - intros c Hi. eexists. split.
    + unfold step. simpl. rewrite bool_decide_eq_true_2 by exact Hi. reflexivity.
    + simpl. auto.
Qed.

Lemma selection_clears_witness :
  (reachable state_two_lines /\ is_Some (interest state_two_lines))
  /\ (exists s', step state_two_lines (ClickInterest Cooking) = Some s'
      /\ interest s' = Some Cooking /\ concept s' = None
      /\ stack s' = [] /\ queue s' = [])
  /\ (exists s', step state_two_lines (ClickConcept Queue) = Some s'
      /\ interest s' = interest state_two_lines /\ concept s' = Some Queue
      /\ stack s' = [] /\ queue s' = []).
Proof.
  assert (Hr : reachable state_two_lines).
  { apply reachable_run. exists session_two_lines. reflexivity. }
  assert (Hi : is_Some (interest state_two_lines)) by (simpl; eauto).
  split; [split; assumption|].
  destruct (selection_clears state_two_lines Hr) as [Hint Hcon].
  split; [exact (Hint Cooking) | exact (Hcon Queue Hi)].
Defined.

(** C6: whatever the two sequences hold, the Reset handler leaves both
    empty. *)
Theorem reset_empties (s : State) :
  stack (handler ClickReset s) = [] /\ queue (handler ClickReset s) = []
  /\ length (stack (handler ClickReset s)) = 0
  /\ length (queue (handler ClickReset s)) = 0.
Proof. repeat split. Qed.

(** C8: from the initial page, selecting Music and then Stack shows an
    analogy that contains "bar" and leaves the stack empty; five Push clicks
    give Bar A, Bar B, Bar C, Bar D, Bar A; one Pop then gives Bar A, Bar B,
    Bar C, Bar D. *)
Theorem scenario_music_stack :
  exists s0 e s5 s6,
    run init [ClickInterest Music; ClickConcept Stack] = Some s0
    /\ exp s0 = Some e /\ e = generateExplanation Music Stack
    /\ contains (analogy e) "bar"
    /\ stack s0 = []
    /\ run s0 [ClickPush; ClickPush; ClickPush; ClickPush; ClickPush] = Some s5
    /\ stack s5 = ["Bar A"; "Bar B"; "Bar C"; "Bar D"; "Bar A"]
    /\ run s5 [ClickPop] = Some s6
    /\ stack s6 = ["Bar A"; "Bar B"; "Bar C"; "Bar D"].
Proof.
  do 4 eexists.
  split; [reflexivity|]. split; [reflexivity|]. split; [reflexivity|].
  split.
  { exists "A Stack is like building a setlist: you add each ".
    exists " on top. When you undo, the last bar you added comes off first (LIFO).".
    reflexivity. }
  split; [reflexivity|]. split; [reflexivity|]. split; [reflexivity|].
  split; reflexivity.
Qed.

(** C9: with no interest selected the template is Item A, Item B, Item C,
    Item D; with an interest selected it is the base noun of that interest
    followed by a space and one of A, B, C, D, in this order. The base nouns
    of the six interests are Move, Line, Step, Play, Action and Bar. *)
Theorem demoItems_template :
  demoItems None = ["Item A"; "Item B"; "Item C"; "Item D"]
  /\ (forall i, demoItems (Some i)
        = (fun letter => base i +:+ " " +:+ letter) <$> ["A"; "B"; "C"; "D"])
  /\ base <$> INTERESTS = ["Move"; "Line"; "Step"; "Play"; "Action"; "Bar"].
Proof.
  split; [reflexivity|]. split; [|reflexivity].
  intros i. destruct i; reflexivity.
Qed.

(** C10: Push and Pop leave the queue as it was, Enqueue and Dequeue leave
    the stack as it was, and none of Push, Pop, Enqueue, Dequeue and Reset
    changes the selected interest or concept. *)
Theorem demo_frame (s : State) :
  (queue (handler ClickPush s) = queue s /\ queue (handler ClickPop s) = queue s)
  /\ (stack (handler ClickEnqueue s) = stack s
      /\ stack (handler ClickDequeue s) = stack s)
  /\ Forall (fun e => interest (handler e s) = interest s
                      /\ concept (handler e s) = concept s)
       [ClickPush; ClickPop; ClickEnqueue; ClickDequeue; ClickReset].
Proof.
  split; [split; reflexivity|]. split; [split; reflexivity|].
  repeat constructor.
Qed.

(** * Further properties *)

(** ** What every session keeps *)

Lemma remove_end_take (s : list string) : remove_end s = take (length s - 1) s.
Proof.
  unfold remove_end. destruct s as [|x s _] using rev_ind; [reflexivity|].
  rewrite slice_0_m1_snoc, length_app. simpl.
  replace (length s + 1 - 1) with (length s) by lia.
  now rewrite take_app_length.
Qed.

Lemma remove_front_drop (q : list string) : remove_front q = drop 1 q.
Proof. unfold remove_front. destruct q; [reflexivity | apply slice_1_cons]. Qed.

Lemma append_next_label i s :
  exists label, demoItems i !! (length s mod 4) = Some label
    /\ append_next (demoItems i) s = s ++ [label].
Proof.
  destruct (demoItems_index_defined i (length s)) as [label Hl].
  unfold JS.index in Hl. rewrite demoItems_length in Hl.
  exists label. split; [exact Hl|].
  now rewrite append_next_demoItems, Hl.
Qed.

Lemma panel_concept s :
  panel s = true ->
  is_Some (interest s) /\ (concept s = Some Stack \/ concept s = Some Queue).
Proof.
  unfold panel, canVisualize. intros H.
  apply andb_true_iff in H as [H Hc]. apply andb_true_iff in H as [Hi _].
  apply bool_decide_eq_true in Hi. split; [exact Hi|].
  apply orb_true_iff in Hc as [Hc|Hc]; apply bool_decide_eq_true in Hc; auto.
Qed.

Lemma consistent_init : consistent init.
Proof.
  repeat split; simpl; try congruence.
  - intros [c [=]].
  - constructor.
  - intros k label. now rewrite lookup_nil.
Qed.

(** A state whose two sequences were just emptied. *)
Lemma consistent_cleared i c :
  (is_Some c -> is_Some i) ->
  consistent {| interest := i; concept := c; stack := []; queue := [] |}.
Proof.
  intros H. repeat split; simpl; try congruence.
  - exact H.
  - constructor.
  - intros k label. now rewrite lookup_nil.
Qed.

Lemma consistent_step s e s' : consistent s -> step s e = Some s' -> consistent s'.
Proof.
  intros (Hci & Hst & Hqu & Hall & Hcyc) Hstep.
  apply step_Some in Hstep as [Hoff ->].
  apply Forall_app in Hall as [Hs Hq].
  destruct e; simpl in Hoff.
  - apply consistent_cleared. eauto.
  - apply consistent_cleared. intros _. now apply bool_decide_eq_true in Hoff.
  - (* Push *)
    apply andb_true_iff in Hoff as [Hp Hc]. apply bool_decide_eq_true in Hc.
    destruct (append_next_label (interest s) (stack s)) as (label & Hl & Happ).
    unfold consistent; simpl. rewrite Happ.
    split; [exact Hci|]. split; [auto|]. split; [exact Hqu|]. split.
    + apply Forall_app. split; [|exact Hq].
      apply Forall_app. split; [exact Hs|].
      apply Forall_singleton. eapply list_elem_of_lookup_2, Hl.
    + intros k lab Hk. apply lookup_snoc_Some in Hk as [[_ Hk]|[-> <-]].
      * now apply Hcyc.
      * exact Hl.
  - (* Pop *)
    unfold consistent; simpl. rewrite remove_end_take.
    split; [exact Hci|]. split; [|split; [exact Hqu|split]].
    + intros Hne. apply Hst. intros E. rewrite E in Hne. now apply Hne.
    + apply Forall_app. split; [now apply Forall_take | exact Hq].
    + intros k lab Hk. apply lookup_take_Some in Hk as [Hk _]. now apply Hcyc.
  - (* Enqueue *)
    apply andb_true_iff in Hoff as [Hp Hc].
    apply negb_true_iff, bool_decide_eq_false in Hc.
    apply panel_concept in Hp as [_ [Hp|Hp]]; [contradiction|].
    destruct (append_next_label (interest s) (queue s)) as (label & Hl & Happ).
    unfold consistent; simpl. rewrite Happ.
    split; [exact Hci|]. split; [exact Hst|]. split; [auto|]. split; [|exact Hcyc].
    apply Forall_app. split; [exact Hs|].
    apply Forall_app. split; [exact Hq|].
    apply Forall_singleton. eapply list_elem_of_lookup_2, Hl.
  - (* Dequeue *)
    unfold consistent; simpl. rewrite remove_front_drop.
    split; [exact Hci|]. split; [exact Hst|]. split; [|split; [|exact Hcyc]].
    + intros Hne. apply Hqu. intros E. rewrite E in Hne. now apply Hne.
    + apply Forall_app. split; [exact Hs | now apply Forall_drop].
  - (* Reset *)
    apply consistent_cleared. exact Hci.
Qed.

Lemma reachable_consistent s : reachable s -> consistent s.
Proof.
  induction 1 as [|s e s' _ IH Hstep];
    [apply consistent_init | eapply consistent_step; eassumption].
Qed.

Lemma session_reachable tr s : run init tr = Some s -> reachable s.
Proof. intros H. apply reachable_run. eauto. Qed.

Lemma state_graph_reachable : reachable state_graph.
Proof. now apply (session_reachable session_graph). Qed.

Lemma state_two_lines_reachable : reachable state_two_lines.
Proof. now apply (session_reachable session_two_lines). Qed.

Lemma state_queue_twice_reachable : reachable state_queue_twice.
Proof. now apply (session_reachable session_queue_twice). Qed.

(** X1: along every session, once a concept is selected an interest is
    selected too, so the content panel has an explanation to show: [exp] is
    the value of [generateExplanation] at the selected pair, never null. *)
Theorem concept_selected_shows_explanation (s : State) :
  reachable s -> is_Some (concept s) ->
  exists i c, interest s = Some i /\ concept s = Some c
    /\ exp s = Some (generateExplanation i c).
Proof.
  intros Hr [c Hc]. destruct (reachable_consistent s Hr) as (Hci & _).
  destruct Hci as [i Hi]; [eauto|].
  exists i, c. unfold exp. now rewrite Hi, Hc.
Qed.

Lemma concept_selected_shows_explanation_witness :
  (reachable state_graph /\ is_Some (concept state_graph))
  /\ exists i c, interest state_graph = Some i /\ concept state_graph = Some c
       /\ exp state_graph = Some (generateExplanation i c).
Proof.
  assert (Hc : is_Some (concept state_graph)) by (simpl; eauto).
  split; [split; [exact state_graph_reachable | exact Hc]|].
  exact (concept_selected_shows_explanation state_graph state_graph_reachable Hc).
Defined.

(** X2: along every session, the stack is empty unless the selected concept
    is Stack and the queue is empty unless it is Queue; so the two sequences
    are never both filled, and nothing stale is kept for a concept that is
    not on display. *)
Theorem idle_sequence_empty (s : State) :
  reachable s ->
  (concept s <> Some Stack -> stack s = [])
  /\ (concept s <> Some Queue -> queue s = [])
  /\ (stack s = [] \/ queue s = []).
Proof.
  intros Hr. destruct (reachable_consistent s Hr) as (_ & Hst & Hqu & _).
  assert (Hs : stack s = [] \/ concept s = Some Stack).
  { destruct (stack s); [now left | right; now apply Hst]. }
  assert (Hq : queue s = [] \/ concept s = Some Queue).
  { destruct (queue s); [now left | right; now apply Hqu]. }
  split; [|split].
  - intros Hne. destruct Hs; [assumption | contradiction].
  - intros Hne. destruct Hq; [assumption | contradiction].
  - destruct Hs as [|Hs]; [now left|]. destruct Hq as [|Hq]; [now right|].
    congruence.
Qed.

Lemma idle_sequence_empty_witness :
  (reachable state_graph
   /\ concept state_graph <> Some Stack /\ concept state_graph <> Some Queue)
  /\ stack state_graph = [] /\ queue state_graph = [].
Proof.
  assert (H1 : concept state_graph <> Some Stack) by discriminate.
  assert (H2 : concept state_graph <> Some Queue) by discriminate.
  split; [split; [exact state_graph_reachable | split; assumption]|].
  destruct (idle_sequence_empty state_graph state_graph_reachable) as (Hs & Hq & _).
  split; [exact (Hs H1) | exact (Hq H2)].
Defined.

(** X3: along every session, every label held by the stack or the queue is
    one of the four items of the template of the interest now selected: a
    label of an earlier interest never survives, and [undefined] never
    enters a sequence. *)
Theorem labels_from_template (s : State) (label : string) :
  reachable s -> label ∈ stack s ++ queue s -> label ∈ demoItems (interest s).
Proof.
  intros Hr Hin. destruct (reachable_consistent s Hr) as (_ & _ & _ & Hall & _).
  rewrite Forall_forall in Hall. now apply Hall.
Qed.

Lemma labels_from_template_witness :
  (reachable state_queue_twice
   /\ "Play B" ∈ stack state_queue_twice ++ queue state_queue_twice)
  /\ "Play B" ∈ demoItems (interest state_queue_twice).
Proof.
  assert (Hin : "Play B" ∈ stack state_queue_twice ++ queue state_queue_twice)
    by (simpl; constructor).
  split; [split; [exact state_queue_twice_reachable | exact Hin]|].
  exact (labels_from_template state_queue_twice "Play B"
           state_queue_twice_reachable Hin).
Defined.

(** X4: along every session, the stack lists the template in cyclic order:
    its element at position [k] is item [k mod 4] of the template of the
    selected interest. *)
Theorem stack_follows_cycle (s : State) (k : nat) :
  reachable s -> k < length (stack s) ->
  stack s !! k = demoItems (interest s) !! (k mod 4).
Proof.
  intros Hr Hk. destruct (reachable_consistent s Hr) as (_ & _ & _ & _ & Hcyc).
  destruct (lookup_lt_is_Some_2 _ _ Hk) as [label Hl].
  rewrite Hl. symmetry. now apply Hcyc.
Qed.

Lemma stack_follows_cycle_witness :
  (reachable state_two_lines /\ 1 < length (stack state_two_lines))
  /\ stack state_two_lines !! 1 = demoItems (interest state_two_lines) !! (1 mod 4).
Proof.
  assert (Hk : 1 < length (stack state_two_lines)) by (simpl; lia).
  split; [split; [exact state_two_lines_reachable | exact Hk]|].
  exact (stack_follows_cycle state_two_lines 1 state_two_lines_reachable Hk).
Defined.

(** ** The bars *)

Lemma append_inj_same_length (a b p q : string) :
  String.length a = String.length b -> a +:+ p = b +:+ q -> a = b /\ p = q.
Proof.
  revert b. induction a as [|c a IH]; intros [|d b]; simpl; try discriminate.
  - auto.
  - intros [= Hlen] [= -> Happ]. destruct (IH b Hlen Happ) as [-> ->]. auto.
Qed.

(** The four items of a template have the same length. *)
Lemma demoItems_same_length i x y :
  x ∈ demoItems i -> y ∈ demoItems i -> String.length x = String.length y.
Proof.
  intros Hx Hy. apply list_elem_of_In in Hx, Hy.
  destruct i as [[]|]; simpl in Hx, Hy;
    repeat match goal with H : _ \/ _ |- _ => destruct H as [<-|H] end;
    solve [reflexivity | contradiction].
Qed.

(** Bars whose labels have one length get pairwise distinct keys. *)
Lemma keys_distinct (items : list string) (type : BarsType) :
  (forall x y, x ∈ items -> y ∈ items -> String.length x = String.length y) ->
  NoDup (fst <$> bars (BarsVisualizer items type)).
Proof.
  intros Hlen. simpl. rewrite fmap_imap. apply NoDup_alt.
  intros i j k Hi Hj.
  apply list_lookup_imap_Some in Hi as (x & Hx & ->).
  apply list_lookup_imap_Some in Hj as (y & Hy & E).
  simpl in E. unfold key in E.
  apply append_inj_same_length in E as [_ E].
  - now apply (inj pretty) in E.
  - apply Hlen; eapply list_elem_of_lookup_2; eassumption.
Qed.

(** X5: along every session, the React keys [label + i] of the bars on the
    page are pairwise distinct, even when a label is shown twice. *)
Theorem bar_keys_distinct (s : State) (v : Bars) :
  reachable s -> visualizer s = Some v -> NoDup (fst <$> bars v).
Proof.
  intros Hr Hv. unfold visualizer in Hv.
  destruct (panel s); [|discriminate]. injection Hv as <-.
  assert (Hlen : forall x y, x ∈ stack s ++ queue s -> y ∈ stack s ++ queue s ->
                             String.length x = String.length y).
  { intros x y Hx Hy. apply (demoItems_same_length (interest s));
      eapply reachable_consistent, proj2, proj2, proj2, proj1 in Hr;
      rewrite Forall_forall in Hr; now apply Hr. }
  case_bool_decide; apply keys_distinct; intros x y Hx Hy;
    apply Hlen; apply elem_of_app; auto.
Qed.

Lemma bar_keys_distinct_witness :
  (reachable state_queue_twice
   /\ visualizer state_queue_twice
        = Some (BarsVisualizer ["Play B"; "Play B"] BarsQueue))
  /\ NoDup (fst <$> bars (BarsVisualizer ["Play B"; "Play B"] BarsQueue)).
Proof.
  split; [split; [exact state_queue_twice_reachable | reflexivity]|].
  exact (bar_keys_distinct state_queue_twice _ state_queue_twice_reachable eq_refl).
Defined.

Lemma labels_of_bars (items : list string) (type : BarsType) :
  snd <$> bars (BarsVisualizer items type) = items.
Proof.
  simpl. rewrite fmap_imap. apply list_eq. intros i.
  rewrite list_lookup_imap. now destruct (items !! i).
Qed.

(** X6: along every session, when the visualizer is on the page its bars
    show, in order, every label the two sequences hold and its size readout
    counts them all; when it is not on the page both sequences are empty. *)
Theorem visualizer_shows_all (s : State) :
  reachable s ->
  match visualizer s with
  | Some v =>
      snd <$> bars v = stack s ++ queue s
      /\ size v = length (stack s) + length (queue s)
  | None => stack s = [] /\ queue s = []
  end.
Proof.
  intros Hr. destruct (reachable_consistent s Hr) as (_ & Hst & Hqu & _).
  assert (Hs : stack s = [] \/ concept s = Some Stack).
  { destruct (stack s); [now left | right; now apply Hst]. }
  assert (Hq : queue s = [] \/ concept s = Some Queue).
  { destruct (queue s); [now left | right; now apply Hqu]. }
  unfold visualizer. destruct (panel s) eqn:Hp.
  - case_bool_decide as Hc; rewrite labels_of_bars; simpl size.
    + destruct Hq as [->|Hq]; [|congruence]. rewrite app_nil_r. simpl. split; [reflexivity | lia].
    + destruct Hs as [->|Hs]; [|contradiction]. split; reflexivity.
  - assert (Hno : ~ (is_Some (interest s) /\ is_Some (concept s)
                     /\ (concept s = Some Stack \/ concept s = Some Queue))).
    { intros (Hi & Hc & Hv). unfold panel, canVisualize in Hp.
      rewrite (bool_decide_eq_true_2 _ Hi), (bool_decide_eq_true_2 _ Hc) in Hp.
      simpl in Hp. apply orb_false_iff in Hp as [H1 H2].
      apply bool_decide_eq_false in H1, H2. tauto. }
    destruct (reachable_consistent s Hr) as (Hci & _).
    split.
    + destruct Hs as [|Hs]; [assumption|]. exfalso. apply Hno.
      rewrite Hs in *. split; [apply Hci|]; eauto.
    + destruct Hq as [|Hq]; [assumption|]. exfalso. apply Hno.
      rewrite Hq in *. split; [apply Hci|]; eauto.
Qed.

Lemma visualizer_shows_all_witness :
  reachable state_queue_twice
  /\ match visualizer state_queue_twice with
     | Some v =>
         snd <$> bars v = stack state_queue_twice ++ queue state_queue_twice
         /\ size v = length (stack state_queue_twice) + length (queue state_queue_twice)
     | None => stack state_queue_twice = [] /\ queue state_queue_twice = []
     end.
Proof.
  split; [exact state_queue_twice_reachable|].
  exact (visualizer_shows_all state_queue_twice state_queue_twice_reachable).
Defined.

(** X7: along every session, Push is on the page exactly when the concept
    is Stack and Enqueue exactly when it is Queue; Pop is enabled exactly
    when the stack holds something and Dequeue exactly when the queue does;
    Reset is on the page exactly when the concept is Stack or Queue. *)
Theorem controls_offered (s : State) :
  reachable s ->
  (offered s ClickPush = true <-> concept s = Some Stack)
  /\ (offered s ClickEnqueue = true <-> concept s = Some Queue)
  /\ (offered s ClickPop = true <-> stack s <> [])
  /\ (offered s ClickDequeue = true <-> queue s <> [])
  /\ (offered s ClickReset = true
      <-> concept s = Some Stack \/ concept s = Some Queue).
Proof.
  intros Hr. destruct (reachable_consistent s Hr) as (Hci & Hst & Hqu & _).
  assert (Hp : panel s = true <-> concept s = Some Stack \/ concept s = Some Queue).
  { split; [apply panel_concept|]. intros Hc.
    assert (Hsc : is_Some (concept s)) by (destruct Hc as [->| ->]; eauto).
    unfold panel, canVisualize.
    rewrite (bool_decide_eq_true_2 _ (Hci Hsc)), (bool_decide_eq_true_2 _ Hsc).
    simpl. apply orb_true_iff.
    destruct Hc; [left | right]; now apply bool_decide_eq_true. }
  assert (Hlen : forall l : list string, length l = 0 <-> l = [])
    by (intros []; simpl; split; congruence).
  unfold offered.
  rewrite !andb_true_iff, !negb_true_iff, !bool_decide_eq_true,
    !bool_decide_eq_false, !Hp, !Hlen.
  repeat split; try tauto; try congruence.
  match goal with Hne : queue s <> [] |- _ => rewrite (Hqu Hne) end.
  discriminate.
Qed.

Lemma controls_offered_witness :
  reachable state_two_lines
  /\ (offered state_two_lines ClickPush = true <-> concept state_two_lines = Some Stack)
  /\ (offered state_two_lines ClickPop = true <-> stack state_two_lines <> []).
Proof.
  split; [exact state_two_lines_reachable|].
  destruct (controls_offered state_two_lines state_two_lines_reachable)
    as (Hpush & _ & Hpop & _).
  split; [exact Hpush | exact Hpop].
Defined.

(** ** More on the resolver *)

Lemma prefix_spec (p s : string) :
  String.prefix p s = true <-> exists after, s = p +:+ after.
Proof.
  revert s. induction p as [|a p IH]; intros s; simpl.
  - destruct s; split; eauto.
  - destruct s as [|b s]; simpl.
    + split; [discriminate | intros [after E]].
      change (String a p +:+ after) with (String a (p +:+ after)) in E.
      discriminate E.
    + destruct (ascii_dec a b) as [->|Hne].
      * rewrite IH. split; intros [after E]; exists after.
        -- now rewrite E.
        -- change (String b p +:+ after) with (String b (p +:+ after)) in E.
           congruence.
      * split; [discriminate | intros [after E]].
        change (String a p +:+ after) with (String a (p +:+ after)) in E.
        congruence.
Qed.

Lemma occurs_spec (piece text : string) :
  occurs piece text = true <-> contains text piece.
Proof.
  split.
  - induction text as [|c text IH]; simpl; rewrite orb_true_iff;
      intros [Hp|Hr]; try discriminate.
    + apply (proj1 (prefix_spec piece "")) in Hp as [after ->]. now exists "", after.
    + apply (proj1 (prefix_spec piece (String c text))) in Hp as [after ->].
      now exists "", after.
    + destruct (IH Hr) as (before & after & ->).
      now exists (String c before), after.
  - intros (before & after & ->).
    induction before as [|c before IH].
    + assert (Hp : String.prefix piece (piece +:+ after) = true)
        by (apply prefix_spec; eauto).
      change ("" +:+ piece +:+ after) with (piece +:+ after).
      destruct (piece +:+ after); simpl; simpl in Hp; now rewrite Hp.
    + change (String c before +:+ piece +:+ after)
        with (String c (before +:+ piece +:+ after)).
      simpl. rewrite IH. apply orb_true_r.
Qed.

(** X8: an analogy names the vocabulary of the selected interest and of no
    other. The analogy of the pair [(i, c)] contains one of the three flavor
    nouns of an interest [j] exactly when [j] is [i] and [c] is not Binary
    Search, whose analogy names no interest at all. *)
Theorem analogy_mentions_own_flavor_only (i j : Interest) (c : Concept) :
  mentions (analogy (generateExplanation i c)) j <-> c <> BinarySearch /\ i = j.
Proof.
  unfold mentions. rewrite <- !occurs_spec, <- !orb_true_iff.
  destruct i, j, c; vm_compute;
    (split;
     [ intros H; first [discriminate H | split; [discriminate | reflexivity]]
     | intros [Hc Hij]; first [reflexivity | congruence] ]).
Qed.

Lemma analogy_mentions_own_flavor_only_witness :
  (Stack <> BinarySearch /\ Music = Music)
  /\ mentions (analogy (generateExplanation Music Stack)) Music.
Proof.
  assert (H : Stack <> BinarySearch /\ Music = Music) by (split; [discriminate | reflexivity]).
  split; [exact H|].
  exact (proj2 (analogy_mentions_own_flavor_only Music Music Stack) H).
Defined.

(** X9: only the Stack template puts the interest into its steps and its
    code: for every other concept the steps and the code are the same for
    all interests, and for Binary Search the whole explanation is. *)
Theorem only_stack_text_varies (i j : Interest) (c : Concept) :
  (c <> Stack ->
     steps (generateExplanation i c) = steps (generateExplanation j c)
     /\ code (generateExplanation i c) = code (generateExplanation j c))
  /\ generateExplanation i BinarySearch = generateExplanation j BinarySearch.
Proof.
  split; [|reflexivity].
  intros Hc. destruct c; [contradiction | split; reflexivity ..].
Qed.

Lemma only_stack_text_varies_witness :
  Graph <> Stack
  /\ steps (generateExplanation Dance Graph) = steps (generateExplanation Music Graph)
  /\ code (generateExplanation Dance Graph) = code (generateExplanation Music Graph).
Proof.
  assert (H : Graph <> Stack) by discriminate.
  split; [exact H|].
  exact (proj1 (only_stack_text_varies Dance Music Graph) H).
Defined.

(** X10: the analogy tells the selection apart. Two pairs with the same
    analogy have the same concept, and the same interest too unless the
    concept is Binary Search. *)
Theorem analogy_injective (i i' : Interest) (c c' : Concept) :
  analogy (generateExplanation i c) = analogy (generateExplanation i' c') ->
  c = c' /\ (c <> BinarySearch -> i = i').
Proof.
  intros H.
  destruct c, c'; try (exfalso; destruct i, i'; vm_compute in H; discriminate H);
    (split; [reflexivity|]); intros Hc; try contradiction;
    destruct i, i'; try reflexivity; exfalso; vm_compute in H; discriminate H.
Qed.

Lemma analogy_injective_witness :
  analogy (generateExplanation Poetry Graph) = analogy (generateExplanation Poetry Graph)
  /\ Graph = Graph /\ (Graph <> BinarySearch -> Poetry = Poetry).
Proof.
  split; [reflexivity|].
  exact (analogy_injective Poetry Poetry Graph Graph eq_refl).
Defined.

(** X11: the base noun of the demo labels is the item noun of the analogies
    with its first letter, a lower-case ASCII letter, put in upper case. *)
Theorem base_capitalises_item (i : Interest) :
  exists c rest,
    item (flavor i) = String c rest
    /\ 97 <= nat_of_ascii c <= 122
    /\ base i = String (ascii_of_nat (nat_of_ascii c - 32)) rest.
Proof.
  destruct i; eexists _, _; (split; [reflexivity|]); split;
    solve [reflexivity | vm_compute; lia].
Qed.

(** X12: the step list has four entries for Stack and three for every other
    concept, and no entry is empty. *)
Theorem steps_shape (i : Interest) (c : Concept) :
  length (steps (generateExplanation i c))
    = (if bool_decide (c = Stack) then 4 else 3)
  /\ Forall (fun step => 0 < String.length step) (steps (generateExplanation i c)).
Proof.
  split; [now destruct c|].
  destruct i, c; repeat constructor.
Qed.

(** ** Composing the demo operations *)

(** X13: [k] Pop handlers in a row keep the first [length - k] elements of
    the stack and [k] Dequeue handlers in a row drop the first [k] elements
    of the queue; more removals than elements leave the sequence empty. *)
Theorem repeated_removals (s : State) (k : nat) :
  stack (Nat.iter k (handler ClickPop) s) = take (length (stack s) - k) (stack s)
  /\ queue (Nat.iter k (handler ClickDequeue) s) = drop k (queue s).
Proof.
  induction k as [|k [IHs IHq]]; simpl.
  - split; [|reflexivity]. rewrite Nat.sub_0_r. now rewrite firstn_all.
  - rewrite remove_end_take, remove_front_drop, IHs, IHq. split.
    + rewrite take_take, length_take. f_equal. lia.
    + rewrite drop_drop. f_equal. lia.
Qed.

Lemma append_next_cyclic i (l : list string) :
  (forall k x, l !! k = Some x -> demoItems i !! (k mod 4) = Some x) ->
  forall k x, append_next (demoItems i) l !! k = Some x ->
              demoItems i !! (k mod 4) = Some x.
Proof.
  intros Hl k x. destruct (append_next_label i l) as (label & Hlab & ->).
  intros Hk. apply lookup_snoc_Some in Hk as [[_ Hk]|[-> <-]]; auto.
Qed.

Lemma step_push i s :
  interest s = Some i -> concept s = Some Stack ->
  step s ClickPush = Some (handler ClickPush s).
Proof.
  intros Hi Hc. unfold step, offered, panel, canVisualize.
  now rewrite Hi, Hc.
Qed.

Lemma step_enqueue i s :
  interest s = Some i -> concept s = Some Queue ->
  step s ClickEnqueue = Some (handler ClickEnqueue s).
Proof.
  intros Hi Hc. unfold step, offered, panel, canVisualize.
  now rewrite Hi, Hc.
Qed.

Lemma run_pushes i n : forall s,
  interest s = Some i -> concept s = Some Stack ->
  (forall k x, stack s !! k = Some x -> demoItems (Some i) !! (k mod 4) = Some x) ->
  exists s', run s (replicate n ClickPush) = Some s'
    /\ interest s' = Some i /\ concept s' = Some Stack /\ queue s' = queue s
    /\ length (stack s') = length (stack s) + n
    /\ (forall k x, stack s' !! k = Some x -> demoItems (Some i) !! (k mod 4) = Some x).
Proof.
  induction n as [|n IH]; intros s Hi Hc Hcyc.
  - exists s. rewrite Nat.add_0_r. cbn [replicate run]. auto 10.
  - cbn [replicate run]. rewrite (step_push i s Hi Hc).
    destruct (IH (handler ClickPush s)) as (s' & Hrun & Hi' & Hc' & Hq & Hlen & Hcyc');
      cbn [handler interest concept stack queue]; try assumption.
    { rewrite Hi. now apply append_next_cyclic. }
    cbn [handler interest concept stack queue] in Hq, Hlen.
    rewrite length_append_next in Hlen.
    exists s'. repeat split; try assumption. lia.
Qed.

Lemma run_enqueues i n : forall s,
  interest s = Some i -> concept s = Some Queue ->
  (forall k x, queue s !! k = Some x -> demoItems (Some i) !! (k mod 4) = Some x) ->
  exists s', run s (replicate n ClickEnqueue) = Some s'
    /\ interest s' = Some i /\ concept s' = Some Queue /\ stack s' = stack s
    /\ length (queue s') = length (queue s) + n
    /\ (forall k x, queue s' !! k = Some x -> demoItems (Some i) !! (k mod 4) = Some x).
Proof.
  induction n as [|n IH]; intros s Hi Hc Hcyc.
  - exists s. rewrite Nat.add_0_r. cbn [replicate run]. auto 10.
  - cbn [replicate run]. rewrite (step_enqueue i s Hi Hc).
    destruct (IH (handler ClickEnqueue s)) as (s' & Hrun & Hi' & Hc' & Hq & Hlen & Hcyc');
      cbn [handler interest concept stack queue]; try assumption.
    { rewrite Hi. now apply append_next_cyclic. }
    cbn [handler interest concept stack queue] in Hq, Hlen.
    rewrite length_append_next in Hlen.
    exists s'. repeat split; try assumption. lia.
Qed.

(** X14: the sequences have no bound. After an interest and Stack are
    selected, any number [n] of Push clicks is accepted and leaves a stack
    of length [n] that lists the template in cyclic order, the queue staying
    empty; likewise for Queue and Enqueue. *)
Theorem appends_accumulate (i : Interest) (n : nat) :
  (exists s,
     run init (ClickInterest i :: ClickConcept Stack :: replicate n ClickPush) = Some s
     /\ length (stack s) = n /\ queue s = []
     /\ forall k, k < n -> stack s !! k = demoItems (Some i) !! (k mod 4))
  /\ (exists s,
     run init (ClickInterest i :: ClickConcept Queue :: replicate n ClickEnqueue) = Some s
     /\ length (queue s) = n /\ stack s = []
     /\ forall k, k < n -> queue s !! k = demoItems (Some i) !! (k mod 4)).
Proof.
  split.
  - destruct (run_pushes i n
                {| interest := Some i; concept := Some Stack; stack := []; queue := [] |})
      as (s & Hrun & _ & _ & Hq & Hlen & Hcyc); try reflexivity.
    { intros k x. cbn [stack queue]. now rewrite lookup_nil. }
    exists s. cbn [stack queue] in Hq, Hlen. repeat split; try assumption.
    intros k Hk. destruct (lookup_lt_is_Some_2 (stack s) k) as [x Hx]; [lia|].
    rewrite Hx. symmetry. now apply Hcyc.
  - destruct (run_enqueues i n
                {| interest := Some i; concept := Some Queue; stack := []; queue := [] |})
      as (s & Hrun & _ & _ & Hq & Hlen & Hcyc); try reflexivity.
    { intros k x. cbn [stack queue]. now rewrite lookup_nil. }
    exists s. cbn [stack queue] in Hq, Hlen. repeat split; try assumption.
    intros k Hk. destruct (lookup_lt_is_Some_2 (queue s) k) as [x Hx]; [lia|].
    rewrite Hx. symmetry. now apply Hcyc.
Qed.

(** X15: a Pop right after a Push gives back the whole state. Along every
    session the converse holds on a non-empty stack: a Push right after a
    Pop puts back the very label that was removed. *)
Theorem push_pop_round_trip (s : State) :
  handler ClickPop (handler ClickPush s) = s
  /\ (reachable s -> stack s <> [] ->
      handler ClickPush (handler ClickPop s) = s).
Proof.
  split.
  - destruct s as [i c st qu]; simpl. f_equal.
    unfold remove_end, append_next. apply slice_0_m1_snoc.
  - intros Hr Hne. destruct (reachable_consistent s Hr) as (_ & _ & _ & _ & Hcyc).
    destruct s as [i c st qu]; cbn [handler interest concept stack queue] in *.
    f_equal.
    destruct st as [|x st _] using rev_ind; [contradiction|].
    unfold remove_end. rewrite slice_0_m1_snoc.
    destruct (append_next_label i st) as (label & Hl & ->).
    f_equal. f_equal.
    specialize (Hcyc (length st) x). rewrite list_lookup_middle in Hcyc by reflexivity.
    specialize (Hcyc eq_refl). congruence.
Qed.

Lemma push_pop_round_trip_witness :
  (reachable state_two_lines /\ stack state_two_lines <> [])
  /\ handler ClickPush (handler ClickPop state_two_lines) = state_two_lines.
Proof.
  assert (Hne : stack state_two_lines <> []) by discriminate.
  split; [split; [exact state_two_lines_reachable | exact Hne]|].
  exact (proj2 (push_pop_round_trip state_two_lines) state_two_lines_reachable Hne).
Defined.

Lemma appends_accumulate_witness :
  4 < 5
  /\ exists s,
       run init (ClickInterest Music :: ClickConcept Stack :: replicate 5 ClickPush)
         = Some s
       /\ stack s !! 4 = demoItems (Some Music) !! (4 mod 4).
Proof.
  assert (Hk : 4 < 5) by lia.
  split; [exact Hk|].
  destruct (proj1 (appends_accumulate Music 5)) as (s & Hrun & _ & _ & Hcyc).
  exists s. split; [exact Hrun | exact (Hcyc 4 Hk)].
Defined.
